(** * skewer: the SKU accessor (sku.go) and the catalog adapter (wrap.go)

    A shallow embedding of the query layer over Azure resource SKUs.
    Go pointers that may be nil are [option]s, a dereference of a nil
    pointer is the outcome [Panicked], Go's [(value, error)] results are
    pairs whose second component is [None] for a nil error, and the
    [map[string]bool] built by [AvailabilityZones] is a [gmap string bool]
    under an [option] (a nil map is [None]).  A SKU is a struct value:
    the receiver and the argument of [Equal] are pointers to one. *)

From Stdlib Require Import ZArith Bool Ascii.
From stdpp Require Import gmap strings list fin_maps.

#[local] Set Warnings "-clear-no-such-hyp".

Open Scope Z_scope.
Open Scope string_scope.
Open Scope list_scope.

(** ** The provider's records (package compute of the Azure SDK)

    Only the fields sku.go reads are kept.  Every pointer field is an
    [option]; [r_Type] is the SDK's string-typed enumeration. *)

Module compute.

Record ResourceSkuCapabilities := {
  cap_Name : option string;
  cap_Value : option string }.

Record ResourceSkuZoneDetails := {
  zd_Name : option (list string);
  zd_Capabilities : option (list ResourceSkuCapabilities) }.

Record ResourceSkuLocationInfo := {
  li_Location : option string;
  li_Zones : option (list string);
  li_ZoneDetails : option (list ResourceSkuZoneDetails) }.

Record ResourceSkuRestrictionInfo := {
  ri_Locations : option (list string);
  ri_Zones : option (list string) }.

Record ResourceSkuRestrictions := {
  r_Type : string;
  r_Values : option (list string);
  r_RestrictionInfo : option ResourceSkuRestrictionInfo }.

Record ResourceSku := {
  ResourceType : option string;
  Name : option string;
  Locations : option (list string);
  LocationInfo : option (list ResourceSkuLocationInfo);
  Capabilities : option (list ResourceSkuCapabilities);
  Restrictions : option (list ResourceSkuRestrictions) }.

(** The two values of ResourceSkuRestrictionsType. *)
Definition Location : string := "Location".
Definition Zone : string := "Zone".

(** The zero value of the struct: what [make([]SKU, n)] is filled with. *)
Definition zero : ResourceSku :=
  {| ResourceType := None; Name := None; Locations := None;
     LocationInfo := None; Capabilities := None; Restrictions := None |}.

End compute.

Export compute.

(** [type SKU compute.ResourceSku]: the same struct under a new name; the
    conversion [SKU(value)] keeps every field. *)
Definition SKU : Type := ResourceSku.

Definition SKU_of (value : ResourceSku) : SKU := value.

(** [type Supported string] and its two constants. *)
Definition CapabilitySupported : string := "True".
Definition CapabilityUnsupported : string := "False".

Definition VCPUs : string := "vCPUs".
Definition MemoryGB : string := "MemoryGB".

(** ** Errors *)

(** What strconv reports: a [*NumError] with the function, the input and
    one of the two sentinel causes. *)
Module strconv_err.
Inductive cause := ErrSyntax | ErrRange.
Record NumError := { Func : string; Num : string; Err : cause }.
End strconv_err.

Export strconv_err.

(** The error values sku.go returns: its three struct errors, the
    [fmt.Errorf] strings of [GetLocation] and the [errors.Wrapf] of
    [HasCapabilityWithCapacity]. *)
Inductive error :=
  | ErrCapabilityNotFound (capability : string)
  | ErrCapabilityValueNil (capability : string)
  | ErrCapabilityValueParse (capability value : string) (err : NumError)
  | Errorf (message : string)
  | Wrapf (err : NumError) (message : string).

(** ** What sku.go calls and the sources do not define

    [stringEqualsWithNormalization] is the repository's own helper;
    [ParseInt s] stands for [strconv.ParseInt(s, 10, 64)], returning Go's
    pair of a value and an error.  The accessor is defined and verified
    for every such pair of functions. *)
Class Externals := {
  stringEqualsWithNormalization : string → string → bool;
  ParseInt : string → Z * option NumError }.

(** Floating point stays abstract: the type, the one constant the code
    writes ([-1]) and [ParseFloat s] for [strconv.ParseFloat(s, 64)]. *)
Class Float64 := {
  float64 : Type;
  float64_minus_one : float64;
  ParseFloat : string → float64 * option NumError }.

(** ** Control flow *)

(** A call either returns or panics (a nil dereference). *)
Inductive outcome (A : Type) :=
  | Returned (a : A)
  | Panicked.

Arguments Returned {A} a.
Arguments Panicked {A}.

(** [for _, x := range l { body }] where the body may [return]: the body
    answers [Some r] to return [r] from the enclosing function and [None]
    to go on; [after] is what follows the loop. *)
Fixpoint rangeReturn {A R : Type} (l : list A) (body : A → option R) (after : R) : R :=
  match l with
  | [] => after
  | x :: rest =>
      match body x with
      | Some r => r
      | None => rangeReturn rest body after
      end
  end.

(** The same loop when the body also updates local variables [s]. *)
Inductive flow (S R : Type) :=
  | Continue (s : S)
  | Return (r : R).

Arguments Continue {S R} s.
Arguments Return {S R} r.

Fixpoint rangeState {A S R : Type} (l : list A) (body : S → A → flow S R) (s : S) : flow S R :=
  match l with
  | [] => Continue s
  | x :: rest =>
      match body s x with
      | Continue s' => rangeState rest body s'
      | Return r => Return r
      end
  end.

(** The guard of the two quantity getters: the name is set and is
    [==] to [name]. *)
Definition nameIs (name : string) (capability : ResourceSkuCapabilities) : bool :=
  match cap_Name capability with
  | Some n => String.eqb n name
  | None => false
  end.

(** The guard of the normalising scans: the name is set and
    [stringEqualsWithNormalization] accepts it against [name]. *)
Definition nameMatches `{Externals} (name : string) (capability : ResourceSkuCapabilities) : bool :=
  match cap_Name capability with
  | Some n => stringEqualsWithNormalization n name
  | None => false
  end.

(** ** Go's strings package *)

(** [strings.HasPrefix] and [strings.Contains]: [Contains s substr] tells
    whether [substr] occurs somewhere in [s]. *)
Module gostrings.

Fixpoint HasPrefix (s prefix : string) : bool :=
  match prefix, s with
  | EmptyString, _ => true
  | String p prefix', String c s' => Ascii.eqb c p && HasPrefix s' prefix'
  | String _ _, EmptyString => false
  end.

Fixpoint Contains (s substr : string) : bool :=
  HasPrefix s substr
  || match s with
     | EmptyString => false
     | String _ rest => Contains rest substr
     end.

End gostrings.

(** ** sku.go *)

Definition GetCapabilityIntegerQuantity `{Externals} (s : SKU) (name : string) : Z * option error :=
  match Capabilities s with
  | None => (-1, Some (ErrCapabilityNotFound name))
  | Some capabilities =>
      rangeReturn capabilities
        (λ capability,
           if nameIs name capability then
             match cap_Value capability with
             | Some value =>
                 let '(intVal, err) := ParseInt value in
                 match err with
                 | Some e => Some (-1, Some (ErrCapabilityValueParse name value e))
                 | None => Some (intVal, None)
                 end
             | None => Some (-1, Some (ErrCapabilityValueNil name))
             end
           else None)
        (-1, Some (ErrCapabilityNotFound name))
  end.

Definition GetCapabilityFloatQuantity `{Float64} (s : SKU) (name : string) : float64 * option error :=
  match Capabilities s with
  | None => (float64_minus_one, Some (ErrCapabilityNotFound name))
  | Some capabilities =>
      rangeReturn capabilities
        (λ capability,
           if nameIs name capability then
             match cap_Value capability with
             | Some value =>
                 let '(intVal, err) := ParseFloat value in
                 match err with
                 | Some e => Some (float64_minus_one, Some (ErrCapabilityValueParse name value e))
                 | None => Some (intVal, None)
                 end
             | None => Some (float64_minus_one, Some (ErrCapabilityValueNil name))
             end
           else None)
        (float64_minus_one, Some (ErrCapabilityNotFound name))
  end.

Definition VCPU `{Externals} (s : SKU) : Z * option error :=
  GetCapabilityIntegerQuantity s VCPUs.

Definition Memory `{Float64} (s : SKU) : float64 * option error :=
  GetCapabilityFloatQuantity s MemoryGB.

Definition HasCapability `{Externals} (s : SKU) (name : string) : bool :=
  match Capabilities s with
  | None => false
  | Some capabilities =>
      rangeReturn capabilities
        (λ capability,
           if nameMatches name capability then
             Some (match cap_Value capability with
                   | Some value => stringEqualsWithNormalization value CapabilitySupported
                   | None => false
                   end)
           else None)
        false
  end.

Definition HasCapabilityWithCapacity `{Externals} (s : SKU) (name : string) (value : Z) : bool * option error :=
  match Capabilities s with
  | None => (false, None)
  | Some capabilities =>
      rangeReturn capabilities
        (λ capability,
           if nameMatches name capability then
             match cap_Value capability with
             | Some v =>
                 let '(intVal, err) := ParseInt v in
                 match err with
                 | Some e =>
                     Some (false, Some (Wrapf e ("failed to parse string '" +:+ v +:+ "' as int64")))
                 | None => if (intVal >=? value)%Z then Some (true, None) else Some (false, None)
                 end
             | None => Some (false, None)
             end
           else None)
        (false, None)
  end.

(** [restriction.Type == compute.Location] *)
Definition isLocationRestriction (restriction : ResourceSkuRestrictions) : bool :=
  String.eqb (r_Type restriction) compute.Location.

(** [*locationInfo.Location] is dereferenced unguarded: an entry without a
    location makes the call panic. *)
Definition IsAvailable `{Externals} (s : SKU) (location : string) : outcome bool :=
  match LocationInfo s with
  | None => Returned false
  | Some infos =>
      rangeReturn infos
        (λ locationInfo,
           match li_Location locationInfo with
           | None => Some Panicked
           | Some l =>
               if stringEqualsWithNormalization l location then
                 Some (Returned
                   match Restrictions s with
                   | Some restrictions =>
                       rangeReturn restrictions
                         (λ restriction,
                            if isLocationRestriction restriction then Some false else None)
                         true
                   | None => true
                   end)
               else None
           end)
        (Returned false)
  end.

(** The inner loop returns from the function on a hit ([Some true]) and
    falls back into the outer loop otherwise. *)
Definition IsRestricted `{Externals} (s : SKU) (location : string) : bool :=
  match Restrictions s with
  | None => false
  | Some restrictions =>
      rangeReturn restrictions
        (λ restriction,
           match r_Values restriction with
           | None => None
           | Some values =>
               rangeReturn values
                 (λ candidate,
                    if stringEqualsWithNormalization candidate location
                       && isLocationRestriction restriction
                    then Some (Some true) else None)
                 None
           end)
        false
  end.

Definition IsResourceType `{Externals} (s : SKU) (t : string) : bool :=
  match ResourceType s with
  | Some r => stringEqualsWithNormalization r t
  | None => false
  end.

Definition GetResourceType (s : SKU) : string :=
  match ResourceType s with
  | None => ""
  | Some r => r
  end.

Definition GetName (s : SKU) : string :=
  match Name s with
  | None => ""
  | Some n => n
  end.

(** The last line indexes a slice whose length is 1 at that point, so the
    empty-list branch of the final [match] is never taken. *)
Definition GetLocation (s : SKU) : string * option error :=
  match Locations s with
  | None => ("", Some (Errorf "ErrSKULocationNil"))
  | Some locations =>
      if (length locations <? 1)%nat then ("", Some (Errorf "ErrNoSKULocations"))
      else if (1 <? length locations)%nat then ("", Some (Errorf "ErrMultipleSKULocations"))
      else match locations with
           | l :: _ => (l, None)
           | [] => ("", None)
           end
  end.

(** [for _, zone := range zones { m[zone] = true }] *)
Definition markZones (zones : list string) (m : gmap string bool) : gmap string bool :=
  foldl (λ acc zone, <[zone := true]> acc) m zones.

(** [for zone := range restrictedZones { delete(availableZones, zone) }] *)
Definition deleteZones (restrictedZones availableZones : gmap string bool) : gmap string bool :=
  map_fold (λ zone _ acc, delete zone acc) availableZones restrictedZones.

(** The body of the innermost loop of [AvailabilityZones], over the values
    of one restriction.  The state is the pair of maps
    [(availableZones, restrictedZones)]; [restriction.RestrictionInfo] is
    dereferenced unguarded. *)
Definition scanCandidate `{Externals} (location : string) (restriction : ResourceSkuRestrictions)
    (st : gmap string bool * gmap string bool) (candidate : string)
    : flow (gmap string bool * gmap string bool) (outcome (option (gmap string bool))) :=
  if stringEqualsWithNormalization candidate location then
    if isLocationRestriction restriction then Return (Returned None)
    else
      match r_RestrictionInfo restriction with
      | None => Return Panicked
      | Some info =>
          match ri_Zones info with
          | Some zones => Continue (st.1, markZones zones st.2)
          | None => Continue st
          end
      end
  else Continue st.

(** The body of the loop over [*s.Restrictions]. *)
Definition scanRestriction `{Externals} (location : string)
    (st : gmap string bool * gmap string bool) (restriction : ResourceSkuRestrictions)
    : flow (gmap string bool * gmap string bool) (outcome (option (gmap string bool))) :=
  match r_Values restriction with
  | Some values => rangeState values (scanCandidate location restriction) st
  | None => Continue st
  end.

(** The body of the loop over [*s.LocationInfo]; [*locationInfo.Location]
    and [*locationInfo.Zones] are dereferenced unguarded. *)
Definition scanLocationInfo `{Externals} (s : SKU) (location : string)
    (st : gmap string bool * gmap string bool) (locationInfo : ResourceSkuLocationInfo)
    : flow (gmap string bool * gmap string bool) (outcome (option (gmap string bool))) :=
  match li_Location locationInfo with
  | None => Return Panicked
  | Some l =>
      if stringEqualsWithNormalization l location then
        match li_Zones locationInfo with
        | None => Return Panicked
        | Some zones =>
            let st' := (markZones zones st.1, st.2) in
            match Restrictions s with
            | Some restrictions => rangeState restrictions (scanRestriction location) st'
            | None => Continue st'
            end
        end
      else Continue st
  end.

(** [*s.LocationInfo] is dereferenced unguarded as well. *)
Definition AvailabilityZones `{Externals} (s : SKU) (location : string)
    : outcome (option (gmap string bool)) :=
  match LocationInfo s with
  | None => Panicked
  | Some infos =>
      match rangeState infos (scanLocationInfo s location) (∅, ∅) with
      | Return r => r
      | Continue (availableZones, restrictedZones) =>
          Returned (Some (deleteZones restrictedZones availableZones))
      end
  end.

(** [err != nil] *)
Definition notNil (err : option error) : bool :=
  match err with
  | Some _ => true
  | None => false
  end.

(** Both locations are read from the receiver. *)
Definition Equal `{Externals} (s other : SKU) : bool :=
  let '(location, localErr) := GetLocation s in
  let '(otherLocation, otherErr) := GetLocation s in
  stringEqualsWithNormalization (GetResourceType s) (GetResourceType other)
  && stringEqualsWithNormalization (GetName s) (GetName other)
  && stringEqualsWithNormalization location otherLocation
  && notNil localErr
  && notNil otherErr.

(** The capability names of the remaining convenience accessors. *)
Definition EphemeralOSDisk : string := "EphemeralOSDiskSupported".
Definition EncryptionAtHost : string := "EncryptionAtHostSupported".
Definition UltraSSDAvailable : string := "UltraSSDAvailable".
Definition CachedDiskBytes : string := "CachedDiskBytes".
Definition HyperVGenerations : string := "HyperVGenerations".

(** The [Error] methods of the two struct errors that carry only the
    capability name. *)
Definition ErrCapabilityNotFound_Error (capability : string) : string :=
  capability +:+ "CapabilityNotFound".

Definition ErrCapabilityValueNil_Error (capability : string) : string :=
  capability +:+ "CapabilityValueNil".

Definition MaxCachedDiskBytes `{Externals} (s : SKU) : Z * option error :=
  GetCapabilityIntegerQuantity s CachedDiskBytes.

Definition IsEncryptionAtHostSupported `{Externals} (s : SKU) : bool :=
  HasCapability s EncryptionAtHost.

Definition IsEphemeralOSDiskSupported `{Externals} (s : SKU) : bool :=
  HasCapability s EphemeralOSDisk.

(** [capability.Value != nil && stringEqualsWithNormalization(v, "True")]
    for the value [v] the pointer holds. *)
Definition valueSupported `{Externals} (capability : ResourceSkuCapabilities) : bool :=
  match cap_Value capability with
  | Some value => stringEqualsWithNormalization value CapabilitySupported
  | None => false
  end.

(** Three nested loops; only the innermost returns from the function
    ([Some (Some (Some true))] seen from its own body), the others fall
    back into the loop around them.  A matching name with another value
    does not end the scan. *)
Definition HasZonalCapability `{Externals} (s : SKU) (name : string) : bool :=
  match LocationInfo s with
  | None => false
  | Some infos =>
      rangeReturn infos
        (λ locationInfo,
           match li_ZoneDetails locationInfo with
           | None => None
           | Some details =>
               rangeReturn details
                 (λ zoneDetails,
                    match zd_Capabilities zoneDetails with
                    | None => None
                    | Some capabilities =>
                        rangeReturn capabilities
                          (λ capability,
                             if nameMatches name capability then
                               if valueSupported capability then Some (Some (Some true))
                               else None
                             else None)
                          None
                    end)
                 None
           end)
        false
  end.

Definition IsUltraSSDAvailable `{Externals} (s : SKU) : bool :=
  HasZonalCapability s UltraSSDAvailable.

Definition HasCapabilityWithSeparator `{Externals} (s : SKU) (name value : string) : bool :=
  match Capabilities s with
  | None => false
  | Some capabilities =>
      rangeReturn capabilities
        (λ capability,
           if nameMatches name capability then
             Some (match cap_Value capability with
                   | Some v => gostrings.Contains v value
                   | None => false
                   end)
           else None)
        false
  end.

(** ** wrap.go *)

(** [out := make([]SKU, len(in))], then [out[index] = SKU(value)] for each
    index and value of the input.  Every index written is below the
    length of [out]. *)
Definition Wrap (input : list ResourceSku) : list SKU :=
  foldl (λ out iv, <[iv.1 := SKU_of iv.2]> out)
        (replicate (length input) (SKU_of compute.zero))
        (imap pair input).

(** ** Models of the two externals, for running the accessor *)

(** Go's [strconv.ParseInt(s, 10, 64)], after the standard library: an
    optional sign, then [ParseUint]'s left-to-right scan, which reports a
    syntax error at the first byte that is not a decimal digit and a range
    error as soon as the value leaves 64 bits. *)
Module strconv.

Definition maxUint64 : Z := 2 ^ 64 - 1.

Definition digit (c : ascii) : option Z :=
  let n := Z.of_N (N_of_ascii c) in
  if ((48 <=? n) && (n <=? 57))%Z then Some (n - 48) else None.

(** The loop of [ParseUint] for base 10: [inl] is the value, [inr] the
    cause of the failure. *)
Fixpoint scanDigits (s : string) (n : Z) : Z + cause :=
  match s with
  | EmptyString => inl n
  | String c rest =>
      match digit c with
      | None => inr ErrSyntax
      | Some d =>
          if (n >=? maxUint64 / 10 + 1)%Z then inr ErrRange
          else
            let n1 := n * 10 + d in
            if (n1 >? maxUint64)%Z then inr ErrRange else scanDigits rest n1
      end
  end.

Definition numError (s : string) (c : cause) : NumError :=
  {| Func := "ParseInt"; Num := s; Err := c |}.

Definition ParseInt (s0 : string) : Z * option NumError :=
  match s0 with
  | EmptyString => (0, Some (numError s0 ErrSyntax))
  | String c rest =>
      let neg := Ascii.eqb c "-" in
      let s := if Ascii.eqb c "+" || neg then rest else s0 in
      let cutoff := 2 ^ 63 in
      match s with
      | EmptyString => (0, Some (numError s0 ErrSyntax))
      | _ =>
          match scanDigits s 0 with
          | inr ErrSyntax => (0, Some (numError s0 ErrSyntax))
          | inr ErrRange =>
              if neg then (- cutoff, Some (numError s0 ErrRange))
              else (cutoff - 1, Some (numError s0 ErrRange))
          | inl un =>
              if negb neg && (un >=? cutoff)%Z then (cutoff - 1, Some (numError s0 ErrRange))
              else if neg && (un >? cutoff)%Z then (- cutoff, Some (numError s0 ErrRange))
              else (if neg then - un else un, None)
          end
      end
  end.

End strconv.

Module SpecModel.

(** The separator characters the normalisation drops. *)
Definition isSeparator (c : ascii) : bool :=
  Ascii.eqb c "_" || Ascii.eqb c "-" || Ascii.eqb c " ".

Definition toLower (c : ascii) : ascii :=
  let n := N_of_ascii c in
  if (65 <=? n)%N && (n <=? 90)%N then ascii_of_N (n + 32) else c.

(** Lower-case and strip the separators. *)
Fixpoint normalize (s : string) : string :=
  match s with
  | EmptyString => EmptyString
  | String c rest =>
      if isSeparator c then normalize rest else String (toLower c) (normalize rest)
  end.

(** Modelled from the spec: [stringEqualsWithNormalization], the helper
    sku.go calls and the sources do not include.  Two strings match when
    they are equal after lower-casing and stripping the separator
    characters (underscore, hyphen, space). *)
Definition stringEqualsWithNormalization (a b : string) : bool :=
  String.eqb (normalize a) (normalize b).

End SpecModel.

(** The accessor over these two models. *)
#[export] Instance goModel : Externals := {
  stringEqualsWithNormalization := SpecModel.stringEqualsWithNormalization;
  ParseInt := strconv.ParseInt }.

(** ** The specification's words, for comparison with the code *)

(** The first capability whose name the guard [p] accepts. *)
Definition firstCapability (p : ResourceSkuCapabilities → bool) (s : SKU)
    : option ResourceSkuCapabilities :=
  match Capabilities s with
  | Some capabilities => find p capabilities
  | None => None
  end.

(** The contract of a quantity getter, given the capability the scan
    stopped at: not found, value nil, value unparseable, or the number. *)
Definition quantityOf {N : Type} (minusOne : N) (parse : string → N * option NumError)
    (name : string) (found : option ResourceSkuCapabilities) : N * option error :=
  match found with
  | None => (minusOne, Some (ErrCapabilityNotFound name))
  | Some capability =>
      match cap_Value capability with
      | None => (minusOne, Some (ErrCapabilityValueNil name))
      | Some value =>
          match parse value with
          | (_, Some e) => (minusOne, Some (ErrCapabilityValueParse name value e))
          | (n, None) => (n, None)
          end
      end
  end.

(** The contract of [hasCapabilityWithCapacity]. *)
Definition capacityOf `{Externals} (threshold : Z) (found : option ResourceSkuCapabilities)
    : bool * option error :=
  match found with
  | None => (false, None)
  | Some capability =>
      match cap_Value capability with
      | None => (false, None)
      | Some v =>
          match ParseInt v with
          | (_, Some e) => (false, Some (Wrapf e ("failed to parse string '" +:+ v +:+ "' as int64")))
          | (n, None) => (bool_decide (threshold ≤ n)%Z, None)
          end
      end
  end.

(** The contract of [hasCapability]. *)
Definition supportedOf `{Externals} (found : option ResourceSkuCapabilities) : bool :=
  match found with
  | None => false
  | Some capability =>
      match cap_Value capability with
      | None => false
      | Some v => stringEqualsWithNormalization v CapabilitySupported
      end
  end.

(** A location-info entry declares [location]. *)
Definition locationMatches `{Externals} (location : string)
    (locationInfo : ResourceSkuLocationInfo) : bool :=
  match li_Location locationInfo with
  | Some l => stringEqualsWithNormalization l location
  | None => false
  end.

Definition locationInfos (s : SKU) : list ResourceSkuLocationInfo :=
  default [] (LocationInfo s).

Definition restrictions (s : SKU) : list ResourceSkuRestrictions :=
  default [] (Restrictions s).

(** The SKU declares [location] in its location-info. *)
Definition declaresLocation `{Externals} (s : SKU) (location : string) : bool :=
  existsb (locationMatches location) (locationInfos s).

(** The SKU carries a restriction of kind Location, whatever it names. *)
Definition hasLocationRestriction (s : SKU) : bool :=
  existsb isLocationRestriction (restrictions s).

(** A restriction lists [location] among its values. *)
Definition namesLocation `{Externals} (location : string)
    (restriction : ResourceSkuRestrictions) : bool :=
  match r_Values restriction with
  | Some values => existsb (λ candidate, stringEqualsWithNormalization candidate location) values
  | None => false
  end.

(** Some restriction of kind Location lists [location]. *)
Definition locationRestricted `{Externals} (s : SKU) (location : string) : bool :=
  existsb (λ r, isLocationRestriction r && namesLocation location r) (restrictions s).

(** The zones listed under the location-info entries that declare
    [location]. *)
Definition listedZones `{Externals} (s : SKU) (location : string) : list string :=
  flat_map (λ info, if locationMatches location info then default [] (li_Zones info) else [])
           (locationInfos s).

(** The zones a restriction of another kind than Location withholds from
    [location]. *)
Definition infoZones (restriction : ResourceSkuRestrictions) : list string :=
  match r_RestrictionInfo restriction with
  | Some info => default [] (ri_Zones info)
  | None => []
  end.

Definition zonesWithheld `{Externals} (location : string)
    (restriction : ResourceSkuRestrictions) : list string :=
  if negb (isLocationRestriction restriction) && namesLocation location restriction
  then infoZones restriction else [].

Definition restrictedZones `{Externals} (s : SKU) (location : string) : list string :=
  flat_map (zonesWithheld location) (restrictions s).

(** The Go map holding [true] at every zone of [zones] that is not in
    [withheld]. *)
Definition zoneMap (zones withheld : list string) : gmap string bool :=
  gset_to_gmap true (list_to_set zones ∖ list_to_set withheld).

(** Every pointer [AvailabilityZones] dereferences without a nil check is
    set: the location-info collection, the location of each of its
    entries, the zones of each entry that declares [location], and the
    restriction info of each restriction of another kind than Location
    that lists [location]. *)
Definition zonesGuarded `{Externals} (s : SKU) (location : string) : bool :=
  match LocationInfo s with
  | None => false
  | Some infos =>
      forallb (λ info,
                 match li_Location info with
                 | None => false
                 | Some l =>
                     if stringEqualsWithNormalization l location
                     then bool_decide (is_Some (li_Zones info)) else true
                 end) infos
      && forallb (λ r,
                    if negb (isLocationRestriction r) && namesLocation location r
                    then bool_decide (is_Some (r_RestrictionInfo r)) else true)
                 (restrictions s)
  end.

(** Every entry of the location-info collection has its location set. *)
Definition locationsSet (s : SKU) : bool :=
  forallb (λ info, bool_decide (is_Some (li_Location info))) (locationInfos s).

(** The capabilities of every zone-details record of every location-info
    entry, in scan order; nil collections contribute nothing. *)
Definition zonalCapabilities (s : SKU) : list ResourceSkuCapabilities :=
  flat_map (λ info,
              flat_map (λ details, default [] (zd_Capabilities details))
                       (default [] (li_ZoneDetails info)))
           (locationInfos s).

(** ** Sample records *)

Definition capability (name value : string) : ResourceSkuCapabilities :=
  {| cap_Name := Some name; cap_Value := Some value |}.

Definition withCapabilities (capabilities : list ResourceSkuCapabilities) : SKU :=
  {| ResourceType := Some "virtualMachines"; Name := Some "Standard_D8s_v3";
     Locations := Some ["eastus"]; LocationInfo := None;
     Capabilities := Some capabilities; Restrictions := None |}.

(** A catalog entry that spells the vCPU capability in lower case. *)
Definition lowerCaseVCPUs : SKU := withCapabilities [capability "vcpus" "8"].

Definition eightCores : SKU :=
  withCapabilities [capability "MemoryGB" "32"; capability "vCPUs" "8"; capability "vCPUs" "eight"].

Definition locationInfo (location : option string) (zones : option (list string))
    : ResourceSkuLocationInfo :=
  {| li_Location := location; li_Zones := zones; li_ZoneDetails := None |}.

Definition restriction (kind : string) (values zones : list string) : ResourceSkuRestrictions :=
  {| r_Type := kind; r_Values := Some values;
     r_RestrictionInfo := Some {| ri_Locations := None; ri_Zones := Some zones |} |}.

Definition withLocations (infos : list ResourceSkuLocationInfo)
    (rs : option (list ResourceSkuRestrictions)) : SKU :=
  {| ResourceType := Some "virtualMachines"; Name := Some "Standard_D8s_v3";
     Locations := Some ["eastus"]; LocationInfo := Some infos;
     Capabilities := None; Restrictions := rs |}.

(** The first location-info entry has no location; the second declares
    eastus. *)
Definition unsetLocationFirst : SKU :=
  withLocations [locationInfo None None; locationInfo (Some "eastus") (Some ["1"])] None.

(** Declared in eastus, with a whole-location restriction naming westus. *)
Definition restrictedElsewhere : SKU :=
  withLocations [locationInfo (Some "eastus") (Some ["1"; "2"])]
                (Some [restriction "Location" ["westus"] []]).

(** Declared in westus only, with a whole-location restriction naming
    eastus. *)
Definition restrictedUndeclared : SKU :=
  withLocations [locationInfo (Some "westus") (Some ["1"])]
                (Some [restriction "Location" ["eastus"] []]).

(** Three zones in East US, the second withheld by a zone restriction. *)
Definition zonal : SKU :=
  withLocations [locationInfo (Some "East US") (Some ["1"; "2"; "3"])]
                (Some [restriction "Zone" ["eastus"] ["2"]]).

(** Two zones of one location, only the second offering ultra SSD. *)
Definition ultraInOneZone : SKU :=
  withLocations
    [{| li_Location := Some "eastus"; li_Zones := Some ["1"; "2"];
        li_ZoneDetails := Some
          [{| zd_Name := Some ["1"];
              zd_Capabilities := Some [capability "UltraSSDAvailable" "False"] |};
           {| zd_Name := Some ["2"];
              zd_Capabilities := Some [capability "UltraSSDAvailable" "True"] |}] |}]
    None.

(** Declared in eastus, with a whole-location restriction naming it. *)
Definition restrictedHere : SKU :=
  withLocations [locationInfo (Some "eastus") (Some ["1"; "2"])]
                (Some [restriction "Zone" ["eastus"] ["1"];
                       restriction "Location" ["East US"] []]).

(** ** Shared facts about the loops *)

Lemma rangeReturn_find {A R : Type} (p : A → bool) (f : A → R) (body : A → option R)
    (after : R) (l : list A) :
  (∀ x, body x = if p x then Some (f x) else None) →
  rangeReturn l body after = match find p l with Some x => f x | None => after end.
Proof.
  intros Hbody. induction l as [|x l IH]; simpl; [done|].
  rewrite Hbody. by destruct (p x).
Qed.

(** [find] stops at the first element the guard accepts. *)
Lemma find_first {A : Type} (p : A → bool) (l : list A) (c : A) :
  find p l = Some c ↔
  ∃ pre post, l = pre ++ c :: post ∧ p c = true ∧ Forall (λ x, p x = false) pre.
Proof.
  split.
  - induction l as [|x l IH]; simpl; [done|].
    destruct (p x) eqn:Hx.
    + intros [= ->]. by exists [], l.
    + intros (pre & post & -> & Hc & Hpre)%IH.
      exists (x :: pre), post. split_and!; [done|done|by constructor].
  - intros (pre & post & -> & Hc & Hpre).
    induction Hpre as [|x pre Hx _ IH]; simpl; [by rewrite Hc|by rewrite Hx].
Qed.

Lemma find_nothing {A : Type} (p : A → bool) (l : list A) :
  find p l = None ↔ Forall (λ x, p x = false) l.
Proof.
  induction l as [|x l IH]; simpl; [by split; [constructor|]|].
  destruct (p x) eqn:Hx.
  - split; [done|]. intros [? _]%Forall_cons. congruence.
  - rewrite IH. split; [by constructor|by intros [_ ?]%Forall_cons].
Qed.

Lemma GetCapabilityIntegerQuantity_contract `{Externals} (s : SKU) (name : string) :
  GetCapabilityIntegerQuantity s name
  = quantityOf (-1)%Z ParseInt name (firstCapability (nameIs name) s).
Proof.
  unfold GetCapabilityIntegerQuantity, firstCapability, quantityOf.
  destruct (Capabilities s) as [capabilities|]; [|done].
  rewrite (rangeReturn_find (nameIs name)
    (λ c, quantityOf (-1)%Z ParseInt name (Some c))).
  - by destruct (find _ _).
  - intros c. destruct (nameIs name c); [|done]. unfold quantityOf.
    destruct (cap_Value c) as [v|]; [|done]. by destruct (ParseInt v) as [n [e|]].
Qed.

Lemma GetCapabilityFloatQuantity_contract `{Float64} (s : SKU) (name : string) :
  GetCapabilityFloatQuantity s name
  = quantityOf float64_minus_one ParseFloat name (firstCapability (nameIs name) s).
Proof.
  unfold GetCapabilityFloatQuantity, firstCapability, quantityOf.
  destruct (Capabilities s) as [capabilities|]; [|done].
  rewrite (rangeReturn_find (nameIs name)
    (λ c, quantityOf float64_minus_one ParseFloat name (Some c))).
  - by destruct (find _ _).
  - intros c. destruct (nameIs name c); [|done]. unfold quantityOf.
    destruct (cap_Value c) as [v|]; [|done]. by destruct (ParseFloat v) as [n [e|]].
Qed.

Lemma quantityOf_error {N : Type} (minusOne : N) parse name found e :
  (quantityOf minusOne parse name found).2 = Some e →
  (quantityOf minusOne parse name found).1 = minusOne.
Proof.
  unfold quantityOf. destruct found as [c|]; [|done].
  destruct (cap_Value c) as [v|]; [|done]. by destruct (parse v) as [n [e'|]].
Qed.

Lemma nameIs_exact (name : string) (c : ResourceSkuCapabilities) :
  nameIs name c = true ↔ cap_Name c = Some name.
Proof.
  unfold nameIs. destruct (cap_Name c) as [n|]; [|done].
  rewrite String.eqb_eq. split; congruence.
Qed.

(** ** The quantity getters *)

(** C1, as amended: [GetCapabilityIntegerQuantity] and
    [GetCapabilityFloatQuantity] stop at the first capability whose name
    is set and exactly equal to the requested one (no normalisation); an
    absent collection or no such capability gives [ErrCapabilityNotFound],
    a nil value [ErrCapabilityValueNil], an unparseable value
    [ErrCapabilityValueParse] with the string and the parser's error, and
    otherwise the parsed number with a nil error; on every error path the
    quantity is [-1]. *)
Theorem GetCapabilityQuantity_exact_name `{Externals} `{Float64} (s : SKU) (name : string) :
  GetCapabilityIntegerQuantity s name
    = quantityOf (-1)%Z ParseInt name (firstCapability (nameIs name) s)
  ∧ GetCapabilityFloatQuantity s name
    = quantityOf float64_minus_one ParseFloat name (firstCapability (nameIs name) s)
  ∧ (∀ c, nameIs name c = true ↔ cap_Name c = Some name)
  ∧ (∀ e, (GetCapabilityIntegerQuantity s name).2 = Some e →
          (GetCapabilityIntegerQuantity s name).1 = (-1)%Z)
  ∧ (∀ e, (GetCapabilityFloatQuantity s name).2 = Some e →
          (GetCapabilityFloatQuantity s name).1 = float64_minus_one).
Proof.
  split_and!.
  - apply GetCapabilityIntegerQuantity_contract.
  - apply GetCapabilityFloatQuantity_contract.
  - intros c. apply nameIs_exact.
  - intros e. rewrite GetCapabilityIntegerQuantity_contract. apply quantityOf_error.
  - intros e. rewrite GetCapabilityFloatQuantity_contract. apply quantityOf_error.
Qed.

(** C1, as stated, fails: asked for "vCPUs", a SKU whose capability is
    spelled "vcpus" answers [ErrCapabilityNotFound], although that
    capability matches under normalisation and its value parses to 8. *)
Lemma quantity_name_not_normalized :
  GetCapabilityIntegerQuantity lowerCaseVCPUs "vCPUs"
    = ((-1)%Z, Some (ErrCapabilityNotFound "vCPUs"))
  ∧ quantityOf (-1)%Z ParseInt "vCPUs" (firstCapability (nameMatches "vCPUs") lowerCaseVCPUs)
    = (8%Z, None).
Proof. split; reflexivity. Qed.

(** The examples of the spec: the value "8" gives 8 and a nil error, the
    value "eight" gives -1 and a parse error carrying the string. *)
Example VCPU_eight :
  VCPU eightCores = (8%Z, None)
  ∧ VCPU (withCapabilities [capability "vCPUs" "eight"])
    = ((-1)%Z, Some (ErrCapabilityValueParse "vCPUs" "eight"
                       {| Func := "ParseInt"; Num := "eight"; Err := ErrSyntax |})).
Proof. split; reflexivity. Qed.

(** ** The normalising scans *)

Lemma HasCapability_contract `{Externals} (s : SKU) (name : string) :
  HasCapability s name = supportedOf (firstCapability (nameMatches name) s).
Proof.
  unfold HasCapability, firstCapability, supportedOf.
  destruct (Capabilities s) as [capabilities|]; [|done].
  rewrite (rangeReturn_find (nameMatches name) (λ c, supportedOf (Some c))).
  - by destruct (find _ _).
  - intros c. by destruct (nameMatches name c).
Qed.

Lemma HasCapabilityWithCapacity_contract `{Externals} (s : SKU) (name : string) (value : Z) :
  HasCapabilityWithCapacity s name value
  = capacityOf value (firstCapability (nameMatches name) s).
Proof.
  unfold HasCapabilityWithCapacity, firstCapability, capacityOf.
  destruct (Capabilities s) as [capabilities|]; [|done].
  rewrite (rangeReturn_find (nameMatches name) (λ c, capacityOf value (Some c))).
  - by destruct (find _ _).
  - intros c. destruct (nameMatches name c); [|done]. unfold capacityOf.
    destruct (cap_Value c) as [v|]; [|done].
    destruct (ParseInt v) as [n [e|]]; [done|].
    rewrite Z.geb_leb. case_bool_decide as Hle.
    + by apply Z.leb_le in Hle as ->.
    + by apply Z.leb_nle in Hle as ->.
Qed.

Lemma firstCapability_absent (p : ResourceSkuCapabilities → bool) (s : SKU) :
  firstCapability p s = None ↔
  Capabilities s = None
  ∨ ∃ capabilities, Capabilities s = Some capabilities ∧ Forall (λ c, p c = false) capabilities.
Proof.
  unfold firstCapability. destruct (Capabilities s) as [capabilities|].
  - rewrite find_nothing. split; [eauto|]. by intros [?|(? & [= <-] & ?)].
  - split; [by left|done].
Qed.

(** C6: on the modelled normalisation, [HasCapability] is decided by the
    first capability whose name is set and normalised-matches: it is true
    when that capability's value is "True" in any case or separator
    variant, false when the value is "False", and false when the
    collection is absent, no name matches or the value is nil; the result
    is a plain boolean, never an error. *)
Theorem HasCapability_first_match (s : SKU) (name : string) :
  HasCapability s name = supportedOf (firstCapability (nameMatches name) s)
  ∧ (∀ c v, firstCapability (nameMatches name) s = Some c → cap_Value c = Some v →
            SpecModel.normalize v = "true" → HasCapability s name = true)
  ∧ (SpecModel.normalize "True" = "true" ∧ SpecModel.normalize "true" = "true"
     ∧ SpecModel.normalize "TRUE" = "true" ∧ SpecModel.normalize "T_r-u E" = "true")
  ∧ (∀ c, firstCapability (nameMatches name) s = Some c → cap_Value c = Some "False" →
          HasCapability s name = false)
  ∧ (∀ c, firstCapability (nameMatches name) s = Some c → cap_Value c = None →
          HasCapability s name = false)
  ∧ (Capabilities s = None → HasCapability s name = false)
  ∧ (∀ capabilities, Capabilities s = Some capabilities →
       Forall (λ c, nameMatches name c = false) capabilities → HasCapability s name = false)
  ∧ (∀ c, firstCapability (nameMatches name) s = Some c ↔
          ∃ pre post, Capabilities s = Some (pre ++ c :: post) ∧ nameMatches name c = true
                      ∧ Forall (λ c', nameMatches name c' = false) pre).
Proof.
  rewrite HasCapability_contract. split_and!; try done.
  - intros c v -> Hv Hn. simpl. rewrite Hv. simpl.
    unfold SpecModel.stringEqualsWithNormalization. by rewrite Hn.
  - intros c -> Hv. simpl. by rewrite Hv.
  - intros c -> Hv. simpl. by rewrite Hv.
  - intros Hnil. unfold firstCapability. by rewrite Hnil.
  - intros capabilities Hcaps Hall.
    assert (firstCapability (nameMatches name) s = None) as ->; [|done].
    apply firstCapability_absent. eauto.
  - intros c. unfold firstCapability. destruct (Capabilities s) as [capabilities|].
    + rewrite find_first. split.
      * intros (pre & post & -> & ? & ?). by exists pre, post.
      * intros (pre & post & [= ->] & ? & ?). by exists pre, post.
    + split; [done|]. by intros (? & ? & ? & _).
Qed.

Example HasCapability_variants :
  HasCapability (withCapabilities [capability "EphemeralOSDiskSupported" "TRUE"])
                "ephemeral_os_disk_supported" = true
  ∧ HasCapability (withCapabilities [capability "EphemeralOSDiskSupported" "False";
                                     capability "EphemeralOSDiskSupported" "True"])
                  "EphemeralOSDiskSupported" = false.
Proof. split; reflexivity. Qed.

(** C7: [HasCapabilityWithCapacity] answers [(true, nil)] exactly when the
    first capability whose name normalised-matches has a value that parses
    to an integer at least the threshold; a parsed value below it gives
    [(false, nil)], an unparseable value [(false, err)], and an absent
    collection or an absent name [(false, nil)]. *)
Theorem HasCapabilityWithCapacity_threshold `{Externals} (s : SKU) (name : string) (value : Z) :
  HasCapabilityWithCapacity s name value = capacityOf value (firstCapability (nameMatches name) s)
  ∧ (HasCapabilityWithCapacity s name value = (true, None) ↔
     ∃ c v n, firstCapability (nameMatches name) s = Some c ∧ cap_Value c = Some v
              ∧ ParseInt v = (n, None) ∧ (value ≤ n)%Z)
  ∧ (∀ c v n, firstCapability (nameMatches name) s = Some c → cap_Value c = Some v →
              ParseInt v = (n, None) → (n < value)%Z →
              HasCapabilityWithCapacity s name value = (false, None))
  ∧ (∀ c v n e, firstCapability (nameMatches name) s = Some c → cap_Value c = Some v →
                ParseInt v = (n, Some e) →
                ∃ err, HasCapabilityWithCapacity s name value = (false, Some err))
  ∧ (Capabilities s = None → HasCapabilityWithCapacity s name value = (false, None))
  ∧ (∀ capabilities, Capabilities s = Some capabilities →
       Forall (λ c, nameMatches name c = false) capabilities →
       HasCapabilityWithCapacity s name value = (false, None)).
Proof.
  rewrite HasCapabilityWithCapacity_contract. split_and!; [done|..].
  - unfold capacityOf. split.
    + destruct (firstCapability _ s) as [c|]; [|done].
      destruct (cap_Value c) as [v|] eqn:Hv; [|done].
      destruct (ParseInt v) as [n [e|]] eqn:Hp; [done|].
      case_bool_decide; [|done]. intros _. by exists c, v, n.
    + intros (c & v & n & -> & -> & -> & Hle). by rewrite bool_decide_eq_true_2.
  - intros c v n -> Hv Hp Hlt. unfold capacityOf. rewrite Hv, Hp.
    rewrite bool_decide_eq_false_2; [done|lia].
  - intros c v n e -> Hv Hp. unfold capacityOf. rewrite Hv, Hp. eauto.
  - intros Hnil. unfold firstCapability. by rewrite Hnil.
  - intros capabilities Hcaps Hall.
    assert (firstCapability (nameMatches name) s = None) as ->; [|done].
    apply firstCapability_absent. eauto.
Qed.

Example MemoryGB_sixteen :
  HasCapabilityWithCapacity eightCores "MemoryGB" 16 = (true, None)
  ∧ HasCapabilityWithCapacity eightCores "memory_gb" 64 = (false, None)
  ∧ HasCapabilityWithCapacity eightCores "MaxDataDiskCount" 16 = (false, None).
Proof. split_and!; reflexivity. Qed.

(** ** Name, resource type and location *)

(** C10: [GetName] and [GetResourceType] return a plain string, the
    field's value when it is set and the empty string when it is nil. *)
Theorem GetName_GetResourceType_total (s : SKU) :
  GetName s = default "" (Name s)
  ∧ GetResourceType s = default "" (ResourceType s)
  ∧ (∀ n, Name s = Some n → GetName s = n)
  ∧ (Name s = None → GetName s = "")
  ∧ (∀ t, ResourceType s = Some t → GetResourceType s = t)
  ∧ (ResourceType s = None → GetResourceType s = "").
Proof.
  unfold GetName, GetResourceType.
  split_and!.
  - by destruct (Name s).
  - by destruct (ResourceType s).
  - by intros n ->.
  - by intros ->.
  - by intros t ->.
  - by intros ->.
Qed.

(** C8: [GetLocation] returns the sole entry and a nil error exactly when
    the locations collection is set and has one entry; a nil collection,
    an empty one and one with several entries each give an error of their
    own, with the empty string as location. *)
Theorem GetLocation_single (s : SKU) :
  GetLocation s
    = match Locations s with
      | None => ("", Some (Errorf "ErrSKULocationNil"))
      | Some [] => ("", Some (Errorf "ErrNoSKULocations"))
      | Some [l] => (l, None)
      | Some (_ :: _ :: _) => ("", Some (Errorf "ErrMultipleSKULocations"))
      end
  ∧ ((GetLocation s).2 = None ↔ ∃ l, Locations s = Some [l])
  ∧ (∀ l, Locations s = Some [l] → GetLocation s = (l, None))
  ∧ Errorf "ErrSKULocationNil" ≠ Errorf "ErrNoSKULocations"
  ∧ Errorf "ErrSKULocationNil" ≠ Errorf "ErrMultipleSKULocations"
  ∧ Errorf "ErrNoSKULocations" ≠ Errorf "ErrMultipleSKULocations".
Proof.
  unfold GetLocation. split_and!; try done.
  - by destruct (Locations s) as [[|l [|l' rest]]|].
  - destruct (Locations s) as [[|l [|l' rest]]|]; simpl; split; try done;
      try (by intros [? [=]]). eauto.
  - by intros l ->.
Qed.

(** ** Structural equality *)

(** C3: [Equal] holds exactly when the resource types match, the names
    match, the two compared locations match, and both location
    resolutions ended in an error; both resolutions are the receiver's
    own, so the other record's locations play no part, and a receiver
    whose location resolves is equal to nothing. *)
Theorem Equal_anomalous `{Externals} (s other : SKU) :
  (Equal s other = true ↔
     stringEqualsWithNormalization (GetResourceType s) (GetResourceType other) = true
     ∧ stringEqualsWithNormalization (GetName s) (GetName other) = true
     ∧ stringEqualsWithNormalization (GetLocation s).1 (GetLocation s).1 = true
     ∧ (GetLocation s).2 ≠ None ∧ (GetLocation s).2 ≠ None)
  ∧ (∀ other', GetResourceType other' = GetResourceType other →
               GetName other' = GetName other → Equal s other' = Equal s other)
  ∧ ((GetLocation s).2 = None → Equal s other = false).
Proof.
  unfold Equal. destruct (GetLocation s) as [location err]. simpl. split_and!.
  - rewrite !andb_true_iff. destruct err as [e|]; simpl; intuition congruence.
  - by intros other' -> ->.
  - intros ->. simpl. by rewrite !andb_false_r.
Qed.

(** A SKU with one location is not equal to itself; a SKU without
    locations is equal to one of the same type and name that has one. *)
Example Equal_examples :
  Equal eightCores eightCores = false
  ∧ Equal (SKU_of compute.zero)
          {| ResourceType := None; Name := None; Locations := Some ["eastus"];
             LocationInfo := None; Capabilities := None; Restrictions := None |} = true.
Proof. split_and!; reflexivity. Qed.

(** ** The catalog adapter *)

Lemma Wrap_loop (input : list ResourceSku) (out : list SKU) :
  (length input ≤ length out)%nat →
  foldl (λ out iv, <[iv.1 := SKU_of iv.2]> out) out (imap pair input)
  = (SKU_of <$> input) ++ drop (length input) out.
Proof.
  induction input as [|value input IH] using rev_ind; intros Hlen.
  - simpl. by rewrite drop_0.
  - rewrite length_app in Hlen. simpl in Hlen.
    rewrite imap_app, foldl_app. simpl. rewrite Nat.add_0_r.
    rewrite IH by lia.
    rewrite insert_app_r_alt by (rewrite length_fmap; lia).
    rewrite length_fmap, Nat.sub_diag.
    destruct (lookup_lt_is_Some_2 out (length input)) as [old Hold]; [lia|].
    rewrite (drop_S _ _ _ Hold). simpl.
    rewrite fmap_app, length_app, <- app_assoc. simpl.
    by rewrite Nat.add_1_r.
Qed.

(** C9: [Wrap] returns as many SKUs as it was given records, in the same
    order, the i-th output being the i-th input with every field
    unchanged; nothing is filtered or checked. *)
Theorem Wrap_one_to_one (input : list ResourceSku) :
  length (Wrap input) = length input
  ∧ Wrap input = SKU_of <$> input
  ∧ (∀ i, Wrap input !! i = input !! i)
  ∧ (∀ i value, input !! i = Some value →
       ∃ wrapped, Wrap input !! i = Some wrapped
         ∧ ResourceType wrapped = ResourceType value ∧ Name wrapped = Name value
         ∧ Locations wrapped = Locations value ∧ LocationInfo wrapped = LocationInfo value
         ∧ Capabilities wrapped = Capabilities value
         ∧ Restrictions wrapped = Restrictions value).
Proof.
  assert (Wrap input = SKU_of <$> input) as Heq.
  { unfold Wrap. rewrite Wrap_loop by (by rewrite length_replicate).
    rewrite drop_ge by (by rewrite length_replicate). apply app_nil_r. }
  assert (SKU_of <$> input = input) as Hid.
  { unfold SKU_of. apply list_fmap_id. }
  split_and!.
  - by rewrite Heq, length_fmap.
  - done.
  - intros i. by rewrite Heq, Hid.
  - intros i value Hi. exists value. by rewrite Heq, Hid.
Qed.

(** ** Availability *)

Lemma IsAvailable_restrictions (rs : list ResourceSkuRestrictions) :
  rangeReturn rs (λ r, if isLocationRestriction r then Some false else None) true
  = negb (existsb isLocationRestriction rs).
Proof.
  induction rs as [|r rs IH]; simpl; [done|]. by destruct (isLocationRestriction r).
Qed.

(** When every location-info entry has its location set, [IsAvailable]
    returns, and returns true exactly when the SKU declares the location
    and carries no restriction of kind Location at all. *)
Lemma IsAvailable_returns `{Externals} (s : SKU) (location : string) :
  locationsSet s = true →
  IsAvailable s location
  = Returned (declaresLocation s location && negb (hasLocationRestriction s)).
Proof.
  unfold locationsSet, IsAvailable, declaresLocation, hasLocationRestriction,
    locationInfos, restrictions.
  destruct (LocationInfo s) as [infos|]; simpl; [|done].
  induction infos as [|info infos IH]; simpl; [done|].
  intros [Hset Hrest]%andb_true_iff. apply bool_decide_eq_true in Hset as [l Hl].
  unfold locationMatches at 1. rewrite Hl.
  destruct (stringEqualsWithNormalization l location); simpl; [|by apply IH].
  destruct (Restrictions s) as [rs|]; simpl; [|done].
  by rewrite IsAvailable_restrictions.
Qed.

(** The property the spec singles out: a whole-location restriction
    naming another location still makes the SKU unavailable. *)
Example IsAvailable_restrictedElsewhere :
  IsAvailable restrictedElsewhere "eastus" = Returned false
  ∧ IsRestricted restrictedElsewhere "eastus" = false.
Proof. split; reflexivity. Qed.

(** C4, at the input where the code departs from it: the SKU declares
    eastus and carries no restriction, so the claim promises [true]; the
    scan dereferences the nil location of the entry before and panics. *)
Theorem IsAvailable_unset_location_panics :
  IsAvailable unsetLocationFirst "eastus" = Panicked
  ∧ declaresLocation unsetLocationFirst "eastus" = true
  ∧ hasLocationRestriction unsetLocationFirst = false.
Proof. split_and!; reflexivity. Qed.

(** C2, at an input where an operation does not return: on a SKU whose
    location-info collection is nil, [AvailabilityZones] dereferences the
    nil pointer and panics, for every location asked about. *)
Theorem AvailabilityZones_nil_LocationInfo_panics `{Externals} (location : string) :
  AvailabilityZones (withCapabilities []) location = Panicked
  ∧ AvailabilityZones (SKU_of compute.zero) location = Panicked
  ∧ IsAvailable (withCapabilities []) location = Returned false
  ∧ IsAvailable unsetLocationFirst location = Panicked.
Proof. split_and!; reflexivity. Qed.

(** ** Availability zones *)

Lemma markZones_set (zones : list string) (X : gset string) :
  markZones zones (gset_to_gmap true X) = gset_to_gmap true (X ∪ list_to_set zones).
Proof.
  unfold markZones. revert X. induction zones as [|zone zones IH]; intros X; simpl.
  - f_equal. set_solver.
  - rewrite <- gset_to_gmap_union_singleton, IH. f_equal. set_solver.
Qed.

Lemma deleteZones_lookup (restrictedZones availableZones : gmap string bool) (zone : string) :
  deleteZones restrictedZones availableZones !! zone
  = match restrictedZones !! zone with
    | Some _ => None
    | None => availableZones !! zone
    end.
Proof.
  unfold deleteZones. revert zone.
  apply (map_fold_weak_ind (λ acc m, ∀ zone,
    acc !! zone = match m !! zone with Some _ => None | None => availableZones !! zone end)).
  - intros zone. by rewrite lookup_empty.
  - intros i x m acc Hfresh IH zone. destruct (decide (i = zone)) as [->|Hne].
    + by rewrite lookup_delete_eq, lookup_insert_eq.
    + by rewrite lookup_delete_ne, lookup_insert_ne, IH.
Qed.

Lemma deleteZones_set (R A : gset string) :
  deleteZones (gset_to_gmap true R) (gset_to_gmap true A) = gset_to_gmap true (A ∖ R).
Proof.
  apply map_eq. intros zone. rewrite deleteZones_lookup, !lookup_gset_to_gmap.
  destruct (decide (zone ∈ R)) as [HR|HR], (decide (zone ∈ A)) as [HA|HA].
  - rewrite (option_guard_True (zone ∈ R)) by done. simpl.
    rewrite option_guard_False; [done|set_solver].
  - rewrite (option_guard_True (zone ∈ R)) by done. simpl.
    rewrite option_guard_False; [done|set_solver].
  - rewrite (option_guard_False (zone ∈ R)) by done. simpl.
    rewrite (option_guard_True (zone ∈ A)) by done.
    rewrite option_guard_True; [done|set_solver].
  - rewrite (option_guard_False (zone ∈ R)) by done. simpl.
    rewrite (option_guard_False (zone ∈ A)) by done.
    rewrite option_guard_False; [done|set_solver].
Qed.

Lemma scanCandidates_result `{Externals} (location : string) (r : ResourceSkuRestrictions)
    (values : list string) (A : gmap string bool) (R : gset string) :
  (isLocationRestriction r = false →
   existsb (λ candidate, stringEqualsWithNormalization candidate location) values = true →
   is_Some (r_RestrictionInfo r)) →
  rangeState values (scanCandidate location r) (A, gset_to_gmap true R)
  = if existsb (λ candidate, stringEqualsWithNormalization candidate location) values then
      if isLocationRestriction r then Return (Returned None)
      else Continue (A, gset_to_gmap true (R ∪ list_to_set (infoZones r)))
    else Continue (A, gset_to_gmap true R).
Proof.
  revert R. induction values as [|candidate values IH]; intros R Hguard; simpl; [done|].
  assert (isLocationRestriction r = false →
          existsb (λ candidate, stringEqualsWithNormalization candidate location) values = true →
          is_Some (r_RestrictionInfo r)) as Hrest.
  { intros Hkind Hnamed. apply Hguard; [done|]. simpl. by rewrite Hnamed, orb_true_r. }
  unfold scanCandidate at 1.
  destruct (stringEqualsWithNormalization candidate location) eqn:Hmatch; simpl;
    [|by apply IH].
  destruct (isLocationRestriction r) eqn:Hkind; [done|].
  destruct Hguard as [info Hinfo]; [done|by simpl; rewrite Hmatch|].
  unfold infoZones in *. rewrite Hinfo in *.
  destruct (ri_Zones info) as [zones|]; simpl.
  - rewrite markZones_set, IH by done.
    destruct (existsb _ values); [|done]. do 3 f_equal. set_solver.
  - rewrite IH by done.
    destruct (existsb _ values); simpl; do 3 f_equal; set_solver.
Qed.

Lemma scanRestriction_result `{Externals} (location : string) (r : ResourceSkuRestrictions)
    (A : gmap string bool) (R : gset string) :
  (negb (isLocationRestriction r) && namesLocation location r = true →
   is_Some (r_RestrictionInfo r)) →
  scanRestriction location (A, gset_to_gmap true R) r
  = if isLocationRestriction r && namesLocation location r then Return (Returned None)
    else Continue (A, gset_to_gmap true (R ∪ list_to_set (zonesWithheld location r))).
Proof.
  unfold scanRestriction, zonesWithheld, namesLocation. intros Hguard.
  destruct (r_Values r) as [values|].
  - rewrite scanCandidates_result.
    + destruct (existsb _ values), (isLocationRestriction r); simpl; try done;
        do 3 f_equal; set_solver.
    + intros Hkind Hnamed. apply Hguard. by rewrite Hkind, Hnamed.
  - rewrite !andb_false_r. simpl. do 3 f_equal. set_solver.
Qed.

Lemma scanRestrictions_result `{Externals} (location : string)
    (rs : list ResourceSkuRestrictions) (A : gmap string bool) (R : gset string) :
  forallb (λ r, if negb (isLocationRestriction r) && namesLocation location r
                then bool_decide (is_Some (r_RestrictionInfo r)) else true) rs = true →
  rangeState rs (scanRestriction location) (A, gset_to_gmap true R)
  = if existsb (λ r, isLocationRestriction r && namesLocation location r) rs
    then Return (Returned None)
    else Continue (A, gset_to_gmap true
                        (R ∪ list_to_set (flat_map (zonesWithheld location) rs))).
Proof.
  revert R. induction rs as [|r rs IH]; intros R; simpl.
  - intros _. do 3 f_equal. set_solver.
  - intros [Hr Hrs]%andb_true_iff. rewrite scanRestriction_result.
    + destruct (isLocationRestriction r && namesLocation location r); simpl; [done|].
      rewrite IH by done. destruct (existsb _ rs); [done|].
      do 3 f_equal. rewrite list_to_set_app_L. set_solver.
    + intros Hcond. rewrite Hcond in Hr. by apply bool_decide_eq_true in Hr.
Qed.

Lemma listed_without_match `{Externals} (location : string)
    (infos : list ResourceSkuLocationInfo) :
  existsb (locationMatches location) infos = false →
  flat_map (λ info, if locationMatches location info then default [] (li_Zones info) else [])
           infos = [].
Proof.
  induction infos as [|info infos IH]; simpl; [done|].
  intros [-> Hrest]%orb_false_iff. by apply IH.
Qed.

Lemma scanLocationInfos_result `{Externals} (s : SKU) (location : string)
    (infos : list ResourceSkuLocationInfo) (A R : gset string) :
  forallb (λ info,
             match li_Location info with
             | None => false
             | Some l =>
                 if stringEqualsWithNormalization l location
                 then bool_decide (is_Some (li_Zones info)) else true
             end) infos = true →
  forallb (λ r, if negb (isLocationRestriction r) && namesLocation location r
                then bool_decide (is_Some (r_RestrictionInfo r)) else true)
          (restrictions s) = true →
  rangeState infos (scanLocationInfo s location) (gset_to_gmap true A, gset_to_gmap true R)
  = if existsb (locationMatches location) infos && locationRestricted s location
    then Return (Returned None)
    else Continue
           (gset_to_gmap true
              (A ∪ list_to_set
                     (flat_map (λ info, if locationMatches location info
                                        then default [] (li_Zones info) else []) infos)),
            gset_to_gmap true
              (if existsb (locationMatches location) infos
               then R ∪ list_to_set (restrictedZones s location) else R)).
Proof.
  intros Hinfos Hrs. revert A R Hinfos.
  induction infos as [|info infos IH]; intros A R; simpl.
  - intros _. do 3 f_equal. set_solver.
  - intros [Hinfo Hrest]%andb_true_iff.
    destruct (li_Location info) as [l|] eqn:Hl; [|done].
    assert (locationMatches location info = stringEqualsWithNormalization l location) as ->.
    { unfold locationMatches. by rewrite Hl. }
    unfold scanLocationInfo at 1. rewrite Hl.
    destruct (stringEqualsWithNormalization l location); simpl.
    + apply bool_decide_eq_true in Hinfo as [zones Hzones]. rewrite Hzones. simpl.
      rewrite markZones_set.
      unfold locationRestricted, restrictedZones, restrictions in *.
      destruct (Restrictions s) as [rs|]; simpl in *.
      * rewrite scanRestrictions_result by done.
        destruct (existsb _ rs); [done|]. rewrite IH by done.
        rewrite andb_false_r. do 2 f_equal.
        -- f_equal. rewrite list_to_set_app_L. set_solver.
        -- f_equal. destruct (existsb _ infos); set_solver.
      * rewrite IH by done. rewrite andb_false_r. do 2 f_equal.
        -- f_equal. rewrite list_to_set_app_L. set_solver.
        -- f_equal. destruct (existsb _ infos); set_solver.
    + by rewrite IH.
Qed.

Lemma zoneMap_lookup (zones withheld : list string) (zone : string) :
  (zoneMap zones withheld !! zone = Some true ↔ zone ∈ zones ∧ zone ∉ withheld)
  ∧ zoneMap zones withheld !! zone ≠ Some false.
Proof.
  unfold zoneMap. rewrite lookup_gset_to_gmap_Some. split.
  - set_solver.
  - rewrite lookup_gset_to_gmap_Some. by intros [_ ?].
Qed.

(** C5, as amended: when every pointer [AvailabilityZones] dereferences
    is set, it returns nil if some location-info entry declares the
    location and some restriction of kind Location lists it; otherwise it
    returns the map holding exactly the zones listed under the entries
    that declare the location, minus every zone named in the restriction
    info of a restriction of another kind that lists the location.  With
    no declaring entry that map is empty and not nil, whatever the
    restrictions say. *)
Theorem AvailabilityZones_guarded `{Externals} (s : SKU) (location : string) :
  zonesGuarded s location = true →
  AvailabilityZones s location
  = Returned (if declaresLocation s location && locationRestricted s location then None
              else Some (zoneMap (listedZones s location) (restrictedZones s location))).
Proof.
  unfold zonesGuarded, AvailabilityZones, declaresLocation, listedZones, locationInfos.
  destruct (LocationInfo s) as [infos|]; [|done]. simpl.
  intros [Hinfos Hrs]%andb_true_iff.
  rewrite <- (gset_to_gmap_empty true).
  rewrite scanLocationInfos_result by done.
  destruct (existsb (locationMatches location) infos) eqn:Hdeclared; simpl.
  - destruct (locationRestricted s location); [done|].
    rewrite deleteZones_set. unfold zoneMap. do 3 f_equal. set_solver.
  - rewrite deleteZones_set. unfold zoneMap. do 3 f_equal.
    rewrite listed_without_match by done. set_solver.
Qed.

(** The theorem at a SKU with three zones in East US, one of them
    withheld. *)
Lemma AvailabilityZones_zonal :
  zonesGuarded zonal "eastus" = true
  ∧ AvailabilityZones zonal "eastus" = Returned (Some (zoneMap ["1"; "2"; "3"] ["2"])).
Proof.
  split; [reflexivity|].
  exact (AvailabilityZones_guarded zonal "eastus" eq_refl).
Defined.

(** C5, as stated, fails: a restriction of kind Location lists eastus, yet
    for a SKU that declares only westus the answer for eastus is the
    empty map, not nil. *)
Lemma AvailabilityZones_restricted_not_nil :
  locationRestricted restrictedUndeclared "eastus" = true
  ∧ AvailabilityZones restrictedUndeclared "eastus" = Returned (Some ∅).
Proof. split; reflexivity. Qed.

Example AvailabilityZones_examples :
  zoneMap ["1"; "2"; "3"] ["2"] = {["1" := true; "3" := true]}
  ∧ AvailabilityZones restrictedElsewhere "eastus"
    = Returned (Some {["1" := true; "2" := true]})
  ∧ AvailabilityZones (withLocations [locationInfo (Some "eastus") (Some ["1"])]
                         (Some [restriction "Zone" ["westus"] ["1"];
                                restriction "Location" ["East_US"] []])) "eastus"
    = Returned None.
Proof. split_and!; by vm_compute. Qed.

(** ** Restrictions *)

Lemma IsRestricted_candidates `{Externals} (location : string) (r : ResourceSkuRestrictions)
    (values : list string) :
  rangeReturn values
    (λ candidate,
       if stringEqualsWithNormalization candidate location && isLocationRestriction r
       then Some (Some true) else None)
    None
  = if isLocationRestriction r
       && existsb (λ candidate, stringEqualsWithNormalization candidate location) values
    then Some true else None.
Proof.
  induction values as [|candidate values IH]; simpl.
  - by rewrite andb_false_r.
  - destruct (stringEqualsWithNormalization candidate location),
      (isLocationRestriction r); simpl in *; try done.
Qed.

Lemma IsRestricted_locationRestricted `{Externals} (s : SKU) (location : string) :
  IsRestricted s location = locationRestricted s location.
Proof.
  unfold IsRestricted, locationRestricted, restrictions.
  destruct (Restrictions s) as [rs|]; simpl; [|done].
  induction rs as [|r rs IH]; simpl; [done|].
  unfold namesLocation at 1. destruct (r_Values r) as [values|].
  - rewrite IsRestricted_candidates.
    by destruct (isLocationRestriction r && existsb _ values).
  - by rewrite andb_false_r.
Qed.

(** X1: [IsRestricted] is true exactly when some restriction of kind
    Location has its values set and lists the location (normalised
    match); restrictions of other kinds and restrictions without values
    never restrict, and the order of the restrictions does not matter. *)
Theorem IsRestricted_iff `{Externals} (s : SKU) (location : string) :
  IsRestricted s location = true ↔
  ∃ rs r values candidate,
    Restrictions s = Some rs ∧ r ∈ rs ∧ r_Type r = compute.Location
    ∧ r_Values r = Some values ∧ candidate ∈ values
    ∧ stringEqualsWithNormalization candidate location = true.
Proof.
  rewrite IsRestricted_locationRestricted.
  unfold locationRestricted, restrictions. rewrite existsb_exists. split.
  - intros (r & Hr & [Hkind Hnamed]%andb_true_iff).
    destruct (Restrictions s) as [rs|]; simpl in Hr; [|done].
    unfold namesLocation in Hnamed. destruct (r_Values r) as [values|] eqn:Hvalues; [|done].
    apply existsb_exists in Hnamed as (candidate & Hc & Hmatch).
    exists rs, r, values, candidate. split_and!; try done.
    + by apply list_elem_of_In.
    + by apply String.eqb_eq.
    + by apply list_elem_of_In.
  - intros (rs & r & values & candidate & -> & Hr & Hkind & Hvalues & Hc & Hmatch).
    exists r. split; [by apply list_elem_of_In|].
    apply andb_true_iff. split.
    + by apply String.eqb_eq.
    + unfold namesLocation. rewrite Hvalues. apply existsb_exists.
      exists candidate. split; [by apply list_elem_of_In|done].
Qed.

Lemma IsAvailable_true `{Externals} (s : SKU) (location : string) :
  IsAvailable s location = Returned true →
  declaresLocation s location = true ∧ hasLocationRestriction s = false.
Proof.
  unfold IsAvailable, declaresLocation, hasLocationRestriction, locationInfos, restrictions.
  destruct (LocationInfo s) as [infos|]; simpl; [|done].
  induction infos as [|info infos IH]; simpl; [done|].
  unfold locationMatches at 1. destruct (li_Location info) as [l|]; [|done].
  destruct (stringEqualsWithNormalization l location); simpl; [|done].
  destruct (Restrictions s) as [rs|]; simpl; [|done].
  rewrite IsAvailable_restrictions. intros [= Hnone]. split; [done|].
  by apply negb_true_iff.
Qed.

Lemma locationRestricted_hasLocationRestriction `{Externals} (s : SKU) (location : string) :
  locationRestricted s location = true → hasLocationRestriction s = true.
Proof.
  unfold locationRestricted, hasLocationRestriction. rewrite !existsb_exists.
  intros (r & Hr & [Hkind _]%andb_true_iff). eauto.
Qed.

(** X2: a location [IsAvailable] accepts is never one [IsRestricted]
    reports as restricted. *)
Theorem IsAvailable_not_restricted `{Externals} (s : SKU) (location : string) :
  IsAvailable s location = Returned true → IsRestricted s location = false.
Proof.
  intros [_ Hfree]%IsAvailable_true. rewrite IsRestricted_locationRestricted.
  destruct (locationRestricted s location) eqn:Hr; [|done].
  apply locationRestricted_hasLocationRestriction in Hr. congruence.
Qed.

Lemma IsAvailable_not_restricted_zonal :
  IsAvailable zonal "eastus" = Returned true ∧ IsRestricted zonal "eastus" = false.
Proof.
  split; [reflexivity|].
  apply (IsAvailable_not_restricted zonal "eastus"). reflexivity.
Defined.

(** X3: [IsAvailable] panics exactly when the scan of the location-info
    entries reaches an entry whose location is nil before any entry that
    declares the location; the restrictions play no part in it. *)
Theorem IsAvailable_panics_iff `{Externals} (s : SKU) (location : string) :
  IsAvailable s location = Panicked ↔
  ∃ pre info post,
    LocationInfo s = Some (pre ++ info :: post) ∧ li_Location info = None
    ∧ Forall (λ i, ∃ l, li_Location i = Some l
                        ∧ stringEqualsWithNormalization l location = false) pre.
Proof.
  unfold IsAvailable. destruct (LocationInfo s) as [infos|]; simpl.
  - induction infos as [|info infos IH]; simpl.
    + split; [done|]. intros (pre & i & post & [= Hnil] & _). by destruct pre.
    + destruct (li_Location info) as [l|] eqn:Hl.
      * destruct (stringEqualsWithNormalization l location) eqn:Hmatch.
        -- split; [done|].
           intros ([|i pre] & i' & post & [= Heq] & Hi' & Hpre); simplify_eq/=.
           apply Forall_cons in Hpre as [(l' & Hl' & Hno) _]. congruence.
        -- rewrite IH. split.
           ++ intros (pre & i & post & [= ->] & Hi & Hpre).
              exists (info :: pre), i, post. split_and!; [done|done|].
              constructor; [eauto|done].
           ++ intros ([|i pre] & i' & post & [= Heq] & Hi' & Hpre); simplify_eq/=.
              apply Forall_cons in Hpre as [_ Hpre]. by exists pre, i', post.
      * split; [|done]. intros _. exists [], info, infos. by split_and!.
  - split; [done|]. by intros (? & ? & ? & ? & _).
Qed.

(** X4: when every location-info entry has its location set,
    [IsAvailable] returns; it answers true exactly when some entry
    declares the location and the SKU carries no restriction of kind
    Location, and false in every other case. *)
Theorem IsAvailable_decides `{Externals} (s : SKU) (location : string) :
  locationsSet s = true →
  (IsAvailable s location = Returned true ↔
     declaresLocation s location = true ∧ hasLocationRestriction s = false)
  ∧ (IsAvailable s location = Returned false ↔
     declaresLocation s location = false ∨ hasLocationRestriction s = true).
Proof.
  intros Hset. rewrite (IsAvailable_returns s location Hset).
  destruct (declaresLocation s location), (hasLocationRestriction s); simpl;
    split; split; try done; intuition congruence.
Qed.

Lemma IsAvailable_decides_restrictedElsewhere :
  locationsSet restrictedElsewhere = true
  ∧ IsAvailable restrictedElsewhere "eastus" = Returned false.
Proof.
  split; [reflexivity|].
  apply (proj2 (@IsAvailable_decides goModel restrictedElsewhere "eastus" eq_refl)).
  by right.
Defined.

Lemma AvailabilityZones_nil_or_map `{Externals} (s : SKU) (location : string) :
  zonesGuarded s location = true →
  (declaresLocation s location && locationRestricted s location = true
   ∧ AvailabilityZones s location = Returned None)
  ∨ (declaresLocation s location && locationRestricted s location = false
     ∧ ∃ zones, AvailabilityZones s location = Returned (Some zones)).
Proof.
  unfold zonesGuarded, AvailabilityZones, declaresLocation, locationInfos.
  destruct (LocationInfo s) as [infos|]; [|done]. simpl.
  intros [Hinfos Hrs]%andb_true_iff.
  rewrite <- (gset_to_gmap_empty true).
  rewrite scanLocationInfos_result by done.
  destruct (existsb (locationMatches location) infos && locationRestricted s location);
    [left|right]; eauto.
Qed.

Lemma zonesGuarded_locationsSet `{Externals} (s : SKU) (location : string) :
  zonesGuarded s location = true → locationsSet s = true.
Proof.
  unfold zonesGuarded, locationsSet, locationInfos.
  destruct (LocationInfo s) as [infos|]; [|done]. simpl.
  intros [Hinfos _]%andb_true_iff. revert Hinfos.
  induction infos as [|info infos IH]; simpl; [done|].
  intros [Hinfo Hrest]%andb_true_iff. rewrite IH by done.
  destruct (li_Location info); [|done]. rewrite bool_decide_eq_true_2; eauto.
Qed.

(** X5: when every pointer [AvailabilityZones] dereferences is set, it
    returns nil exactly when some location-info entry declares the
    location and [IsRestricted] holds for it. *)
Theorem AvailabilityZones_nil_iff_restricted `{Externals} (s : SKU) (location : string) :
  zonesGuarded s location = true →
  (AvailabilityZones s location = Returned None ↔
     declaresLocation s location = true ∧ IsRestricted s location = true).
Proof.
  intros Hguard. rewrite IsRestricted_locationRestricted, <- andb_true_iff.
  destruct (AvailabilityZones_nil_or_map s location Hguard)
    as [[Hcond Hres]|[Hcond [zones Hres]]]; rewrite Hres, Hcond; by split.
Qed.

Lemma AvailabilityZones_nil_restrictedHere :
  zonesGuarded restrictedHere "eastus" = true
  ∧ AvailabilityZones restrictedHere "eastus" = Returned None.
Proof.
  split; [reflexivity|].
  apply (proj2 (@AvailabilityZones_nil_iff_restricted goModel restrictedHere "eastus" eq_refl)).
  split; reflexivity.
Defined.

(** X6: when every pointer [AvailabilityZones] dereferences is set, a
    location [IsAvailable] accepts always gets a zone map from
    [AvailabilityZones], never nil. *)
Theorem AvailabilityZones_of_available `{Externals} (s : SKU) (location : string) :
  zonesGuarded s location = true →
  IsAvailable s location = Returned true →
  ∃ zones, AvailabilityZones s location = Returned (Some zones).
Proof.
  intros Hguard [_ Hfree]%IsAvailable_true.
  destruct (AvailabilityZones_nil_or_map s location Hguard)
    as [[Hcond _]|[_ Hres]]; [|done].
  apply andb_true_iff in Hcond as [_ Hr].
  apply locationRestricted_hasLocationRestriction in Hr. congruence.
Qed.

Lemma AvailabilityZones_of_available_zonal :
  zonesGuarded zonal "eastus" = true
  ∧ IsAvailable zonal "eastus" = Returned true
  ∧ ∃ zones, AvailabilityZones zonal "eastus" = Returned (Some zones).
Proof.
  split_and!; [reflexivity|reflexivity|].
  apply (AvailabilityZones_of_available zonal "eastus"); reflexivity.
Defined.

(** ** Zonal capabilities *)

Lemma existsb_flat_map {A B : Type} (p : B → bool) (f : A → list B) (l : list A) :
  existsb p (flat_map f l) = existsb (λ x, existsb p (f x)) l.
Proof.
  induction l as [|x l IH]; simpl; [done|]. by rewrite existsb_app, IH.
Qed.

Lemma HasZonalCapability_capabilities `{Externals} (name : string)
    (capabilities : list ResourceSkuCapabilities) :
  rangeReturn capabilities
    (λ capability,
       if nameMatches name capability then
         if valueSupported capability then Some (Some (Some true)) else None
       else None)
    None
  = if existsb (λ c, nameMatches name c && valueSupported c) capabilities
    then Some (Some true) else None.
Proof.
  induction capabilities as [|c capabilities IH]; simpl; [done|].
  by destruct (nameMatches name c), (valueSupported c).
Qed.

Lemma HasZonalCapability_details `{Externals} (name : string)
    (details : list ResourceSkuZoneDetails) :
  rangeReturn details
    (λ zoneDetails,
       match zd_Capabilities zoneDetails with
       | None => None
       | Some capabilities =>
           rangeReturn capabilities
             (λ capability,
                if nameMatches name capability then
                  if valueSupported capability then Some (Some (Some true)) else None
                else None)
             None
       end)
    None
  = if existsb (λ c, nameMatches name c && valueSupported c)
         (flat_map (λ zd, default [] (zd_Capabilities zd)) details)
    then Some true else None.
Proof.
  induction details as [|zd details IH]; simpl; [done|].
  rewrite existsb_app. destruct (zd_Capabilities zd) as [capabilities|]; simpl; [|done].
  rewrite HasZonalCapability_capabilities. by destruct (existsb _ capabilities).
Qed.

Lemma HasZonalCapability_existsb `{Externals} (s : SKU) (name : string) :
  HasZonalCapability s name
  = existsb (λ c, nameMatches name c && valueSupported c) (zonalCapabilities s).
Proof.
  unfold HasZonalCapability, zonalCapabilities, locationInfos.
  destruct (LocationInfo s) as [infos|]; simpl; [|done].
  induction infos as [|info infos IH]; simpl; [done|].
  rewrite existsb_app. destruct (li_ZoneDetails info) as [details|]; simpl; [|done].
  rewrite HasZonalCapability_details. by destruct (existsb _ (flat_map _ details)).
Qed.

(** X7: [HasZonalCapability] is true exactly when some capability of some
    zone-details record of some location-info entry has a matching name
    and a value that matches "True"; any such capability suffices,
    wherever it stands, and nil collections are skipped. *)
Theorem HasZonalCapability_any `{Externals} (s : SKU) (name : string) :
  HasZonalCapability s name = true ↔
  ∃ c n v, c ∈ zonalCapabilities s ∧ cap_Name c = Some n ∧ cap_Value c = Some v
           ∧ stringEqualsWithNormalization n name = true
           ∧ stringEqualsWithNormalization v CapabilitySupported = true.
Proof.
  rewrite HasZonalCapability_existsb, existsb_exists. split.
  - intros (c & Hc & [Hname Hvalue]%andb_true_iff).
    unfold nameMatches in Hname. unfold valueSupported in Hvalue.
    destruct (cap_Name c) as [n|] eqn:Hn; [|done].
    destruct (cap_Value c) as [v|] eqn:Hv; [|done].
    exists c, n, v. split_and!; try done. by apply list_elem_of_In.
  - intros (c & n & v & Hc & Hn & Hv & Hname & Hvalue).
    exists c. split; [by apply list_elem_of_In|].
    unfold nameMatches, valueSupported. by rewrite Hn, Hv, Hname, Hvalue.
Qed.

(** The case the source comments on: one zone out of two offers ultra SSD
    and the whole location is reported as offering it. *)
Example IsUltraSSDAvailable_one_zone : IsUltraSSDAvailable ultraInOneZone = true.
Proof. reflexivity. Qed.

(** ** Delimited capabilities *)

Lemma HasPrefix_iff (s prefix : string) :
  gostrings.HasPrefix s prefix = true ↔ ∃ post, s = prefix +:+ post.
Proof.
  revert s. induction prefix as [|p prefix IH]; intros [|c s]; simpl.
  - split; [intros _; by exists ""|done].
  - split; [intros _; by exists (String c s)|done].
  - split; [done|]. by intros [post [=]].
  - rewrite andb_true_iff, IH, Ascii.eqb_eq. split.
    + intros [-> [post ->]]. by exists post.
    + intros [post [= -> ->]]. split; [done|by exists post].
Qed.

Lemma Contains_iff (s substr : string) :
  gostrings.Contains s substr = true ↔ ∃ pre post, s = pre +:+ substr +:+ post.
Proof.
  assert (∀ s, gostrings.Contains s substr
               = gostrings.HasPrefix s substr
                 || match s with
                    | EmptyString => false
                    | String _ rest => gostrings.Contains rest substr
                    end) as Hunfold by (by intros [|??]).
  induction s as [|c s IH]; rewrite Hunfold.
  - rewrite orb_false_r, HasPrefix_iff. split.
    + intros [post Hpost]. by exists "", post.
    + intros ([|c pre] & post & Heq); [by exists post|done].
  - rewrite orb_true_iff, HasPrefix_iff, IH. split.
    + intros [[post Hpost]|(pre & post & ->)].
      * by exists "", post.
      * by exists (String c pre), post.
    + intros ([|c' pre] & post & Heq); simpl in Heq.
      * left. by exists post.
      * injection Heq as -> ->. right. by exists pre, post.
Qed.

Lemma HasCapabilityWithSeparator_contract `{Externals} (s : SKU) (name value : string) :
  HasCapabilityWithSeparator s name value
  = match firstCapability (nameMatches name) s with
    | Some c => match cap_Value c with
                | Some v => gostrings.Contains v value
                | None => false
                end
    | None => false
    end.
Proof.
  unfold HasCapabilityWithSeparator, firstCapability.
  destruct (Capabilities s) as [capabilities|]; [|done].
  rewrite (rangeReturn_find (nameMatches name)
    (λ c, match cap_Value c with Some v => gostrings.Contains v value | None => false end)).
  - by destruct (find _ _).
  - intros c. by destruct (nameMatches name c).
Qed.

(** X8: [HasCapabilityWithSeparator] is true exactly when the first
    capability whose name matches has a value in which the given string
    occurs as a substring, at any position and across any delimiter;
    later capabilities of the same name are not consulted. *)
Theorem HasCapabilityWithSeparator_substring `{Externals} (s : SKU) (name value : string) :
  HasCapabilityWithSeparator s name value = true ↔
  ∃ c v pre post, firstCapability (nameMatches name) s = Some c ∧ cap_Value c = Some v
                  ∧ v = pre +:+ value +:+ post.
Proof.
  rewrite HasCapabilityWithSeparator_contract. split.
  - destruct (firstCapability _ s) as [c|]; [|done].
    destruct (cap_Value c) as [v|] eqn:Hv; [|done].
    intros (pre & post & Heq)%Contains_iff. by exists c, v, pre, post.
  - intros (c & v & pre & post & -> & -> & Heq). apply Contains_iff. eauto.
Qed.

(** X9: with the empty string as substring, [HasCapabilityWithSeparator]
    only tells whether the first capability whose name matches has a
    value at all. *)
Theorem HasCapabilityWithSeparator_empty `{Externals} (s : SKU) (name : string) :
  HasCapabilityWithSeparator s name "" = true ↔
  ∃ c v, firstCapability (nameMatches name) s = Some c ∧ cap_Value c = Some v.
Proof.
  rewrite HasCapabilityWithSeparator_contract.
  destruct (firstCapability _ s) as [c|]; [|by split; [|intros (? & ? & ? & _)]].
  destruct (cap_Value c) as [v|] eqn:Hv.
  - split; [by exists c, v|]. intros _. apply Contains_iff. by exists "", v.
  - split; [done|]. intros (c' & v & [= <-] & Hv'). congruence.
Qed.

(** "V1" is found in "V1,V2", and also inside the single entry "V10". *)
Example HyperVGenerations_substring :
  HasCapabilityWithSeparator (withCapabilities [capability "HyperVGenerations" "V1,V2"])
                             HyperVGenerations "V2" = true
  ∧ HasCapabilityWithSeparator (withCapabilities [capability "HyperVGenerations" "V10"])
                               HyperVGenerations "V1" = true
  ∧ HasCapabilityWithSeparator (withCapabilities [capability "HyperVGenerations" "V1";
                                                  capability "HyperVGenerations" "V2"])
                               HyperVGenerations "V2" = false.
Proof. split_and!; reflexivity. Qed.

(** ** Capacity *)

(** X10: whether the capacity test reports an error, and which, does not
    depend on the threshold; and the test is monotone: a SKU that passes
    at one threshold passes at every lower one. *)
Theorem HasCapabilityWithCapacity_monotone `{Externals} (s : SKU) (name : string)
    (value value' : Z) :
  (HasCapabilityWithCapacity s name value).2 = (HasCapabilityWithCapacity s name value').2
  ∧ ((value' ≤ value)%Z →
     HasCapabilityWithCapacity s name value = (true, None) →
     HasCapabilityWithCapacity s name value' = (true, None)).
Proof.
  rewrite !HasCapabilityWithCapacity_contract. unfold capacityOf.
  destruct (firstCapability _ s) as [c|]; [|done].
  destruct (cap_Value c) as [v|]; [|done].
  destruct (ParseInt v) as [n [e|]]; [done|].
  split; [done|]. intros Hle [= Hn%bool_decide_eq_true].
  rewrite bool_decide_eq_true_2; [done|lia].
Qed.

Lemma HasCapabilityWithCapacity_monotone_eightCores :
  HasCapabilityWithCapacity eightCores "MemoryGB" 32 = (true, None)
  ∧ HasCapabilityWithCapacity eightCores "MemoryGB" 16 = (true, None).
Proof.
  split; [reflexivity|].
  apply (proj2 (@HasCapabilityWithCapacity_monotone goModel eightCores "MemoryGB" 32 16));
    [lia|reflexivity].
Defined.

Lemma find_agree {A : Type} (p q : A → bool) (l : list A) :
  forallb (λ x, Bool.eqb (p x) (q x)) l = true → find p l = find q l.
Proof.
  induction l as [|x l IH]; simpl; [done|].
  intros [Hx Hl]%andb_true_iff. apply Bool.eqb_prop in Hx. rewrite Hx, IH; done.
Qed.

(** X11: on a SKU where every capability that matches the name under
    normalisation is spelled exactly like it, the capacity test agrees
    with the integer getter: when the getter returns [n] the test at
    threshold [t] is [t ≤ n], without error. *)
Theorem HasCapabilityWithCapacity_agrees_with_quantity `{Externals} (s : SKU)
    (name : string) (threshold n : Z) :
  forallb (λ c, Bool.eqb (nameMatches name c) (nameIs name c))
          (default [] (Capabilities s)) = true →
  GetCapabilityIntegerQuantity s name = (n, None) →
  HasCapabilityWithCapacity s name threshold = (bool_decide (threshold ≤ n)%Z, None).
Proof.
  intros Hexact. rewrite GetCapabilityIntegerQuantity_contract,
    HasCapabilityWithCapacity_contract.
  assert (firstCapability (nameMatches name) s = firstCapability (nameIs name) s) as ->.
  { unfold firstCapability. destruct (Capabilities s) as [capabilities|]; [|done].
    by apply find_agree. }
  unfold quantityOf, capacityOf.
  destruct (firstCapability _ s) as [c|]; [|done].
  destruct (cap_Value c) as [v|]; [|done].
  destruct (ParseInt v) as [m [e|]]; [done|]. by intros [= ->].
Qed.

Lemma HasCapabilityWithCapacity_agrees_eightCores :
  GetCapabilityIntegerQuantity eightCores "vCPUs" = (8%Z, None)
  ∧ HasCapabilityWithCapacity eightCores "vCPUs" 4 = (true, None).
Proof.
  split; [reflexivity|].
  exact (@HasCapabilityWithCapacity_agrees_with_quantity goModel eightCores "vCPUs" 4 8
           eq_refl eq_refl).
Defined.

(** ** Wrapping page by page *)

Lemma Wrap_fmap (input : list ResourceSku) : Wrap input = SKU_of <$> input.
Proof.
  unfold Wrap. rewrite Wrap_loop by (by rewrite length_replicate).
  rewrite drop_ge by (by rewrite length_replicate). apply app_nil_r.
Qed.

(** X12: wrapping commutes with concatenation, so wrapping the pages of a
    listing one by one and appending the results gives what wrapping the
    whole listing gives; the empty listing wraps to the empty one. *)
Theorem Wrap_app (page rest : list ResourceSku) :
  Wrap (page ++ rest) = Wrap page ++ Wrap rest ∧ Wrap [] = [].
Proof.
  split; [|done]. by rewrite !Wrap_fmap, fmap_app.
Qed.

(** ** Error messages *)

Lemma append_length (a b : string) :
  String.length (a +:+ b) = (String.length a + String.length b)%nat.
Proof. induction a as [|c a IH]; simpl; [done|]. by rewrite IH. Qed.

Lemma append_suffix_inj (a b suffix suffix' : string) :
  String.length suffix = String.length suffix' →
  a +:+ suffix = b +:+ suffix' → a = b ∧ suffix = suffix'.
Proof.
  revert b. induction a as [|c a IH]; intros [|c' b] Hlen Heq; simpl in *.
  - done.
  - apply (f_equal String.length) in Heq.
    rewrite (append_length ""), (append_length (String c' b)) in Heq. simpl in Heq. lia.
  - apply (f_equal String.length) in Heq.
    rewrite (append_length ""), (append_length (String c a)) in Heq. simpl in Heq. lia.
  - injection Heq as -> Heq. destruct (IH b Hlen Heq) as [-> ->]. done.
Qed.

(** X13: the messages of [ErrCapabilityNotFound] and
    [ErrCapabilityValueNil] determine the error: each is injective in the
    capability name, and no not-found message is a value-nil message,
    whatever the two capability names. *)
Theorem Error_messages_distinguish (a b : string) :
  (ErrCapabilityNotFound_Error a = ErrCapabilityNotFound_Error b → a = b)
  ∧ (ErrCapabilityValueNil_Error a = ErrCapabilityValueNil_Error b → a = b)
  ∧ ErrCapabilityNotFound_Error a ≠ ErrCapabilityValueNil_Error b.
Proof.
  unfold ErrCapabilityNotFound_Error, ErrCapabilityValueNil_Error. split_and!.
  - by intros [? _]%append_suffix_inj.
  - by intros [? _]%append_suffix_inj.
  - by intros [_ ?]%append_suffix_inj.
Qed.
